(** * Firm model: the computational core of [App.jsx]

    The component computes, from five parameters (FC, a, b, c, p), a
    series of sampled points ([data]) and four markers ([markers]):
    the profit-maximising quantity, the maximum profit, the break-even
    quantity and the profit limit.

    JavaScript numbers are modelled through an interface [Number] that
    lists the operations the source uses.  The program is written once
    against that interface and then read at two instances:

    - [F64], IEEE-754 binary64 with round-to-nearest-even, the arithmetic
      the source really runs on (built on the Standard Library's
      [SpecFloat]);
    - [Exact], rational arithmetic extended with NaN and the two
      infinities, the arithmetic "over the reals" the specification
      speaks of. *)

From Stdlib Require Import ZArith QArith Qround Qabs Qreals Reals.
From Stdlib Require Import List Bool Lia Lra Psatz.
From Stdlib Require Import Floats.SpecFloat.
Import ListNotations.

Set Implicit Arguments.

(** ** The number interface *)

(** The operations on numbers that [App.jsx] uses.  [dec m d] is the
    decimal literal [m * 10^-d]; [toFixedNumber d x] is
    [Number(x.toFixed(d))]; [lt], [le] and [strictEq] are [<], [<=] and
    [===]. *)
Class Number : Type := {
  num : Type;
  add : num -> num -> num;
  sub : num -> num -> num;
  mul : num -> num -> num;
  div : num -> num -> num;
  lt : num -> num -> bool;
  le : num -> num -> bool;
  strictEq : num -> num -> bool;
  isFinite : num -> bool;
  abs : num -> num;
  toFixedNumber : nat -> num -> num;
  NaN : num;
  negInfinity : num;
  dec : Z -> nat -> num
}.

Arguments dec {_} m%_Z d%_nat : simpl never.
Arguments add {_} _ _ : simpl never.
Arguments sub {_} _ _ : simpl never.
Arguments mul {_} _ _ : simpl never.
Arguments div {_} _ _ : simpl never.
Arguments lt {_} _ _ : simpl never.
Arguments le {_} _ _ : simpl never.
Arguments strictEq {_} _ _ : simpl never.
Arguments isFinite {_} _ : simpl never.
Arguments abs {_} _ : simpl never.
Arguments toFixedNumber {_} _ _ : simpl never.
Arguments NaN {_} : simpl never.
Arguments negInfinity {_} : simpl never.

Declare Scope js_scope.
Delimit Scope js_scope with js.
Notation "x + y" := (add x y) : js_scope.
Notation "x - y" := (sub x y) : js_scope.
Notation "x * y" := (mul x y) : js_scope.
Notation "x / y" := (div x y) : js_scope.
Notation "x <? y" := (lt x y) : js_scope.
Notation "x >? y" := (lt y x) : js_scope.
Notation "x <=? y" := (le x y) : js_scope.
Notation "x >=? y" := (le y x) : js_scope.
Notation "x === y" := (strictEq x y) (at level 70, no associativity) : js_scope.

(** ** Data model *)

(** The five sliders of the component. *)
Module Parameters.
Record t (num : Type) : Type := mk {
  FC : num; a : num; b : num; c : num; p : num
}.
Arguments mk {num}.
Arguments FC {num}.
Arguments a {num}.
Arguments b {num}.
Arguments c {num}.
Arguments p {num}.
End Parameters.

(** One pushed point of [data]. *)
Module Sample.
Record t (num : Type) : Type := mk {
  Q : num;
  TR : num; AR : num; MR : num;
  TC : num; AC : num; MC : num;
  TP : num; AP : num; MP : num
}.
Arguments mk {num}.
Arguments Q {num}.
Arguments TR {num}.
Arguments AR {num}.
Arguments MR {num}.
Arguments TC {num}.
Arguments AC {num}.
Arguments MC {num}.
Arguments TP {num}.
Arguments AP {num}.
Arguments MP {num}.
End Sample.

(** The object returned by [markers]; [null] is [None]. *)
Module Markers.
Record t (num : Type) : Type := mk {
  Qstar : num;
  maxTP : num;
  breakEven : option num;
  profitLimit : option num
}.
Arguments mk {num}.
Arguments Qstar {num}.
Arguments maxTP {num}.
Arguments breakEven {num}.
Arguments profitLimit {num}.
End Markers.

(** ** The program *)

Section Program.
Context {N : Number}.
Local Open Scope js_scope.

Definition zero : num := dec 0 0.
Definition one : num := dec 1 0.
Definition two : num := dec 2 0.
Definition three : num := dec 3 0.

(** [const Qmax = 10; const step = 0.1;] *)
Definition Qmax : num := dec 10 0.
Definition step : num := dec 1 1.
(** The tolerance [1e-9] of both loop conditions. *)
Definition eps : num := dec 1 9.
(** [const scanStep = 0.01;] *)
Definition scanStep : num := dec 1 2.
(** The threshold [1e-3] of the root filter. *)
Definition dedupTol : num := dec 1 3.

Arguments zero : simpl never.
Arguments one : simpl never.
Arguments two : simpl never.
Arguments three : simpl never.
Arguments Qmax : simpl never.
Arguments step : simpl never.
Arguments eps : simpl never.
Arguments scanStep : simpl never.
Arguments dedupTol : simpl never.

Variable P : Parameters.t num.

Let FC := Parameters.FC P.
Let a := Parameters.a P.
Let b := Parameters.b P.
Let c := Parameters.c P.
Let p := Parameters.p P.

(** The body of the loop of [data] at loop variable [Q]: the point
    that is pushed. *)
Definition evaluate (Q : num) : Sample.t num :=
  let TR := p * Q in
  let AR := if Q === zero then p else TR / Q in
  let MR := p in
  let TC := FC + a * Q - b * Q * Q + c * Q * Q * Q in
  let AC := if Q === zero then NaN else TC / Q in
  let MC := a - two * b * Q + three * c * Q * Q in
  let TP := TR - TC in
  let AP := if Q === zero then NaN else TP / Q in
  let MP := MR - MC in
  Sample.mk (toFixedNumber 3 Q) TR AR MR TC AC MC TP AP MP.

(** [for (let Q = 0; Q <= Qmax + 1e-9; Q += step) pts.push(...)],
    started at loop variable [Q].  [None] when the fuel runs out
    before the loop condition fails. *)
Fixpoint dataLoop (fuel : nat) (Q : num) : option (list (Sample.t num)) :=
  match fuel with
  | O => None
  | S fuel' =>
      if Q <=? Qmax + eps
      then option_map (cons (evaluate Q)) (dataLoop fuel' (Q + step))
      else Some []
  end.

Definition dataFuel : nat := 200.

(** [data]: the memoised series. *)
Definition data : option (list (Sample.t num)) := dataLoop dataFuel zero.

(** One turn of [for (const row of data)]: the pair is
    [(maxTP, Qstar)]. *)
Definition maxStep (acc : num * num) (row : Sample.t num) : num * num :=
  if Sample.TP row >? fst acc then (Sample.TP row, Sample.Q row) else acc.

Definition maxScan (series : list (Sample.t num)) : num * num :=
  fold_left maxStep series (negInfinity, zero).

Definition tpAt (Q : num) : num :=
  let TR := p * Q in
  let TC := FC + a * Q - b * Q * Q + c * Q * Q * Q in
  TR - TC.

(** [for (let k = 0; k < 30; k += 1)], with [k] turns left; the result
    is the final bracket [(lo, hi)]. *)
Fixpoint bisect (k : nat) (prevTP lo hi : num) : num * num :=
  match k with
  | O => (lo, hi)
  | S k' =>
      let mid := (lo + hi) / two in
      let midTP := tpAt mid in
      if prevTP * midTP <=? zero
      then bisect k' prevTP lo mid
      else bisect k' midTP mid hi
  end.

(** The root pushed by the bisection branch. *)
Definition refine (prevQ prevTP currQ : num) : num :=
  let '(lo, hi) := bisect 30 prevTP prevQ currQ in (lo + hi) / two.

(** What one turn of the scan pushes onto [roots]. *)
Definition pushed (prevQ prevTP currQ currTP : num) : list num :=
  if negb (isFinite prevTP) || negb (isFinite currTP) then []
  else if prevTP === zero then [prevQ]
  else if currTP === zero then [currQ]
  else if prevTP * currTP <? zero then [refine prevQ prevTP currQ]
  else [].

(** [for (let Q = scanStep; Q <= Qmax + 1e-9; Q += scanStep)], started
    at loop variable [Q] with the current [roots], [prevQ] and
    [prevTP]. *)
Fixpoint scanLoop (fuel : nat) (roots : list num) (prevQ prevTP Q : num)
  : option (list num) :=
  match fuel with
  | O => None
  | S fuel' =>
      if Q <=? Qmax + eps
      then
        let currQ := toFixedNumber 4 Q in
        let currTP := tpAt currQ in
        scanLoop fuel' (roots ++ pushed prevQ prevTP currQ currTP)
                 currQ currTP (Q + scanStep)
      else Some roots
  end.

Definition scanFuel : nat := 2000.

Definition roots : option (list num) :=
  scanLoop scanFuel [] zero (tpAt zero) scanStep.

(** [roots.sort((x, y) => x - y)]: a stable sort by the sign of
    [x - y]. *)
Fixpoint insert (x : num) (l : list num) : list num :=
  match l with
  | [] => [x]
  | y :: l' => if y - x <? zero then y :: insert x l' else x :: l
  end.

Definition sort (l : list num) : list num := fold_right insert [] l.

(** [.filter((x, idx, arr) => idx === 0 || Math.abs(x - arr[idx - 1]) > 1e-3)];
    [prev] is [arr[idx - 1]]. *)
Fixpoint filterFrom (prev : num) (l : list num) : list num :=
  match l with
  | [] => []
  | x :: l' =>
      if abs (x - prev) >? dedupTol
      then x :: filterFrom x l'
      else filterFrom x l'
  end.

Definition dedup (l : list num) : list num :=
  match l with
  | [] => []
  | x :: l' => x :: filterFrom x l'
  end.

Definition uniqueRoots : option (list num) :=
  option_map (fun r => dedup (sort r)) roots.

(** The two [null]-initialised markers, from [uniqueRoots]. *)
Definition breakEvenOf (u : list num) : option num :=
  match u with
  | [] => None
  | r0 :: _ => Some r0
  end.

Definition profitLimitOf (u : list num) : option num :=
  match u with
  | r0 :: candidate :: _ =>
      if candidate - r0 >=? one then Some candidate else None
  | _ => None
  end.

(** [markers], given the series [data] it reads. *)
Definition markers (series : list (Sample.t num)) : option (Markers.t num) :=
  let '(maxTP, Qstar) := maxScan series in
  match uniqueRoots with
  | None => None
  | Some u => Some (Markers.mk Qstar maxTP (breakEvenOf u) (profitLimitOf u))
  end.

End Program.

(** ** Binary64, the arithmetic of the source *)

Module Binary64.
Local Open Scope Z_scope.

Definition prec : Z := 53.
Definition emax : Z := 1024.

(** The double nearest to the rational [n / d], [d > 0]: a correctly
    rounded division of the two integers (how a decimal literal or a
    decimal string is read). *)
Definition ofRatio (n : Z) (d : positive) : spec_float :=
  match n with
  | Z0 => S754_zero false
  | Zpos m => SFdiv prec emax (S754_finite false m 0) (S754_finite false d 0)
  | Zneg m => SFdiv prec emax (S754_finite true m 0) (S754_finite false d 0)
  end.

Definition dec (m : Z) (d : nat) : spec_float :=
  ofRatio m (Z.to_pos (10 ^ Z.of_nat d)).

Definition isFinite (x : spec_float) : bool :=
  match x with
  | S754_zero _ | S754_finite _ _ _ => true
  | S754_infinity _ | S754_nan => false
  end.

(** [floor (m * 2^e * 10^d + 1/2)]: the integer [n] that [toFixed]
    picks for the magnitude [m * 2^e] ("n / 10^d - x as close to zero
    as possible, the larger n on a tie"). *)
Definition fixedDigits (d : nat) (m : positive) (e : Z) : Z :=
  let s := Zpos m * 10 ^ Z.of_nat d in
  if 0 <=? e then s * 2 ^ e
  else (2 * s + 2 ^ (- e)) / 2 ^ (1 - e).

(** [m * 2^e >= 10^21], where [toFixed] falls back to [ToString]. *)
Definition atLeast1e21 (m : positive) (e : Z) : bool :=
  if 0 <=? e then 10 ^ 21 <=? Zpos m * 2 ^ e
  else 10 ^ 21 * 2 ^ (- e) <=? Zpos m.

(** [Number(x.toFixed(d))]. *)
Definition toFixedNumber (d : nat) (x : spec_float) : spec_float :=
  match x with
  | S754_zero _ => S754_zero false
  | S754_finite s m e =>
      if atLeast1e21 m e then x
      else
        match fixedDigits d m e with
        | Zpos n =>
            SFdiv prec emax (S754_finite s n 0)
                  (S754_finite false (Z.to_pos (10 ^ Z.of_nat d)) 0)
        | _ => S754_zero s
        end
  | _ => x
  end.
End Binary64.

#[export] Instance F64 : Number := {
  num := spec_float;
  add := SFadd Binary64.prec Binary64.emax;
  sub := SFsub Binary64.prec Binary64.emax;
  mul := SFmul Binary64.prec Binary64.emax;
  div := SFdiv Binary64.prec Binary64.emax;
  lt := SFltb;
  le := SFleb;
  strictEq := SFeqb;
  isFinite := Binary64.isFinite;
  abs := SFabs;
  toFixedNumber := Binary64.toFixedNumber;
  NaN := S754_nan;
  negInfinity := S754_infinity true;
  dec := Binary64.dec
}.

(** ** Exact arithmetic, the arithmetic of the specification *)

Module Rational.
Local Open Scope Q_scope.

(** A rational, NaN, or an infinity ([XInf true] is [-Infinity]).
    There is one zero, and no operation rounds. *)
Inductive xnum : Type :=
| XNaN
| XInf (negative : bool)
| XFin (q : Q).

Definition isNeg (q : Q) : bool := (Qnum q <? 0)%Z.
Definition isZero (q : Q) : bool := (Qnum q =? 0)%Z.

Definition add (x y : xnum) : xnum :=
  match x, y with
  | XNaN, _ | _, XNaN => XNaN
  | XInf s, XInf s' => if Bool.eqb s s' then XInf s else XNaN
  | XInf s, XFin _ | XFin _, XInf s => XInf s
  | XFin q, XFin r => XFin (Qred (q + r))
  end.

Definition opp (x : xnum) : xnum :=
  match x with
  | XNaN => XNaN
  | XInf s => XInf (negb s)
  | XFin q => XFin (Qred (- q))
  end.

Definition sub (x y : xnum) : xnum :=
  match x, y with
  | XFin q, XFin r => XFin (Qred (q - r))
  | _, _ => add x (opp y)
  end.

Definition mul (x y : xnum) : xnum :=
  match x, y with
  | XNaN, _ | _, XNaN => XNaN
  | XInf s, XInf s' => XInf (xorb s s')
  | XInf s, XFin q | XFin q, XInf s =>
      if isZero q then XNaN else XInf (xorb s (isNeg q))
  | XFin q, XFin r => XFin (Qred (q * r))
  end.

Definition div (x y : xnum) : xnum :=
  match x, y with
  | XNaN, _ | _, XNaN => XNaN
  | XInf _, XInf _ => XNaN
  | XInf s, XFin r => XInf (xorb s (isNeg r))
  | XFin q, XInf _ => XFin 0
  | XFin q, XFin r =>
      if isZero r
      then (if isZero q then XNaN else XInf (isNeg q))
      else XFin (Qred (q / r))
  end.

Definition lt (x y : xnum) : bool :=
  match x, y with
  | XNaN, _ | _, XNaN => false
  | XInf s, XInf s' => s && negb s'
  | XInf s, XFin _ => s
  | XFin _, XInf s => negb s
  | XFin q, XFin r => match q ?= r with Lt => true | _ => false end
  end.

Definition le (x y : xnum) : bool :=
  match x, y with
  | XNaN, _ | _, XNaN => false
  | XInf s, XInf s' => s || negb s'
  | XInf s, XFin _ => s
  | XFin _, XInf s => negb s
  | XFin q, XFin r => match q ?= r with Gt => false | _ => true end
  end.

Definition strictEq (x y : xnum) : bool :=
  match x, y with
  | XNaN, _ | _, XNaN => false
  | XInf s, XInf s' => Bool.eqb s s'
  | XFin q, XFin r => Qeq_bool q r
  | _, _ => false
  end.

Definition isFinite (x : xnum) : bool :=
  match x with XFin _ => true | _ => false end.

Definition abs (x : xnum) : xnum :=
  match x with
  | XNaN => XNaN
  | XInf _ => XInf false
  | XFin q => XFin (Qred (Qabs q))
  end.

Definition pow10 (d : nat) : positive := Z.to_pos (10 ^ Z.of_nat d).

(** [Number(x.toFixed(d))]: the magnitude is rounded to the nearest
    multiple of [10^-d], upwards on a tie, and keeps its sign; from
    [10^21] on [toFixed] prints the number itself. *)
Definition toFixedNumber (d : nat) (x : xnum) : xnum :=
  match x with
  | XFin q =>
      if Qle_bool (inject_Z (10 ^ 21)) (Qabs q) then x
      else
        let n := Qfloor (Qabs q * inject_Z (Zpos (pow10 d)) + (1 # 2)) in
        XFin (Qred ((if isNeg q then (- n)%Z else n) # pow10 d))
  | _ => x
  end.

Definition dec (m : Z) (d : nat) : xnum := XFin (Qred (m # pow10 d)).
End Rational.

#[export] Instance Exact : Number := {
  num := Rational.xnum;
  add := Rational.add;
  sub := Rational.sub;
  mul := Rational.mul;
  div := Rational.div;
  lt := Rational.lt;
  le := Rational.le;
  strictEq := Rational.strictEq;
  isFinite := Rational.isFinite;
  abs := Rational.abs;
  toFixedNumber := Rational.toFixedNumber;
  NaN := Rational.XNaN;
  negInfinity := Rational.XInf true;
  dec := Rational.dec
}.

(** ** Auxiliary definitions for the proofs *)

Section LoopShape.
Context {N : Number}.
Local Open Scope js_scope.

(** The successive values of the loop variable of
    [for (let Q = Q0; Q <= Qmax + 1e-9; Q += inc)]: both loops of the
    source have this shape, and neither condition reads the
    parameters. *)
Fixpoint loopVars (inc : num) (fuel : nat) (Q : num) : option (list num) :=
  match fuel with
  | O => None
  | S fuel' =>
      if Q <=? Qmax + eps
      then option_map (cons Q) (loopVars inc fuel' (Q + inc))
      else Some []
  end.

(** The values [currQ] takes in the root scan. *)
Definition scanGrid : option (list num) :=
  option_map (map (toFixedNumber 4)) (loopVars scanStep scanFuel scanStep).

(** The adjacent pairs [(prevQ, currQ)] of a run over [qs] that starts
    with [prevQ = prev]. *)
Fixpoint pairs (prev : num) (qs : list num) : list (num * num) :=
  match qs with
  | [] => []
  | q :: qs' => (prev, q) :: pairs q qs'
  end.

Variable P : Parameters.t num.

(** The root scan over given values of [currQ]. *)
Fixpoint scanOver (roots : list num) (prevQ prevTP : num) (qs : list num)
  : list num :=
  match qs with
  | [] => roots
  | currQ :: qs' =>
      let currTP := tpAt P currQ in
      scanOver (roots ++ pushed P prevQ prevTP currQ currTP) currQ currTP qs'
  end.

(** What the scan pushes at the pair [(prevQ, currQ)]. *)
Definition pushedAt (pq : num * num) : list num :=
  pushed P (fst pq) (tpAt P (fst pq)) (snd pq) (tpAt P (snd pq)).

End LoopShape.

(** The decimal [k * 10^-d] as a number of the instance: the [k]-th
    point of a grid of step [10^-d]. *)
Definition tick {N : Number} (d k : nat) : num := dec (Z.of_nat k) d.

(** The defaults of the component: FC=5, a=5, b=1, c=0.1, p=5. *)
Definition referenceParameters {N : Number} : Parameters.t num :=
  Parameters.mk (dec 5 0) (dec 5 0) (dec 1 0) (dec 1 1) (dec 5 0).

(** The defaults with the fixed cost set to 0. *)
Definition zeroFixedCost {N : Number} : Parameters.t num :=
  Parameters.mk (dec 0 0) (dec 5 0) (dec 1 0) (dec 1 1) (dec 5 0).


(** Parameters given as rationals, for the exact instance. *)
Definition realParameters (FC a b c p : Q) : Parameters.t (@num Exact) :=
  Parameters.mk (Rational.XFin FC : @num Exact) (Rational.XFin a : @num Exact)
    (Rational.XFin b : @num Exact) (Rational.XFin c : @num Exact)
    (Rational.XFin p : @num Exact).


(** The facts about [<] and [<=] that the scan for the maximum relies
    on; both instances have them, NaN included (every comparison with
    NaN is false). *)
Class OrderLaws (N : Number) : Prop := {
  lt_irrefl : forall x : num, lt x x = false;
  lt_trans : forall x y z : num, lt x y = true -> lt y z = true -> lt x z = true;
  lt_le_trans : forall x y z : num, lt x y = true -> le y z = true -> lt x z = true;
  lt_le_incl : forall x y : num, lt x y = true -> le x y = true;
  lt_not_le : forall x y : num, lt x y = true -> le y x = false;
  lt_le_refl : forall x y : num, lt x y = true -> le y y = true;
  le_total : forall x y : num,
      le x x = true -> le y y = true -> lt x y = false -> le y x = true;
  negInfinity_le_refl : le (negInfinity : num) negInfinity = true
}.

(** Each element is below its successor, by [<]. *)
Fixpoint increasing {N : Number} (l : list num) : bool :=
  match l with
  | x :: (y :: _) as l' => lt x y && increasing l'
  | _ => true
  end.

(** [fin x v]: in exact arithmetic, [x] is the finite number [v]. *)
Definition fin (x : @num Exact) (v : Q) : Prop :=
  exists q : Q, x = Rational.XFin q /\ (q == v)%Q.

(** Total profit as a function on the rationals. *)
Definition tpQ (FC a b c p : Q) (q : Q) : Q :=
  (p * q - (FC + a * q - b * q * q + c * q * q * q))%Q.

(** The check that a pair of exact numbers is [(l, h)] with
    [0 <= l <= h <= 10] and [h - l = 1/100], as every adjacent pair of
    the scan grid is. *)
Definition exactPairOk (pq : @num Exact * @num Exact) : bool :=
  match pq with
  | (Rational.XFin l, Rational.XFin h) =>
      Qle_bool 0 l && Qle_bool l h && Qle_bool h 10 && Qeq_bool (h - l) (1 # 100)
  | _ => false
  end.

(** * Properties *)

(** ** The binary64 model on well-known values *)

(** [0.1] is the double [0x1.999999999999ap-4]. *)
Example F64_one_tenth :
  (dec 1 1 : @num F64) = S754_finite false 7205759403792794 (-56).
Proof. vm_compute. reflexivity. Qed.

(** [0.1 + 0.2] is [0.30000000000000004], which is not [0.3]. *)
Example F64_sum_of_tenths :
  add (dec 1 1 : @num F64) (dec 2 1) = S754_finite false 5404319552844596 (-54) /\
  (dec 3 1 : @num F64) = S754_finite false 5404319552844595 (-54) /\
  strictEq (add (dec 1 1 : @num F64) (dec 2 1)) (dec 3 1) = false.
Proof. repeat split; vm_compute; reflexivity. Qed.

(** [Number((0.1 + 0.2).toFixed(3))] is [0.3]; [(1.005).toFixed(2)] is
    ["1.00"], since the double of 1.005 is below 1.005; [(2.5).toFixed(0)]
    is ["3"], the larger integer on a tie; [(-0.0001).toFixed(3)] is
    ["-0.000"], read back as [-0]. *)
Example F64_toFixed :
  toFixedNumber 3 (add (dec 1 1 : @num F64) (dec 2 1)) = dec 3 1 /\
  toFixedNumber 2 (dec 1005 3 : @num F64) = dec 1 0 /\
  toFixedNumber 0 (dec 25 1 : @num F64) = dec 3 0 /\
  toFixedNumber 3 (dec (-1) 4 : @num F64) = S754_zero true.
Proof. repeat split; vm_compute; reflexivity. Qed.

(** In exact arithmetic [toFixed] rounds a tie upwards in magnitude:
    1.2345 becomes 1.235 and -1.2345 becomes -1.235. *)
Example Exact_toFixed :
  toFixedNumber 3 (dec 12345 4 : @num Exact) = dec 1235 3 /\
  toFixedNumber 3 (dec (-12345) 4 : @num Exact) = dec (-1235) 3.
Proof. repeat split; vm_compute; reflexivity. Qed.

(** ** The shape of the two loops, for every number instance *)

Section LoopFacts.
Context {N : Number}.
Variable P : Parameters.t num.

Lemma loopVars_more_fuel (inc : num) (fuel extra : nat) (Q : num) (l : list num) :
  loopVars inc fuel Q = Some l -> loopVars inc (fuel + extra) Q = Some l.
Proof.
  revert Q l; induction fuel as [|fuel IH]; intros Q l; simpl.
  - discriminate.
  - destruct (le Q (add Qmax eps)); [|trivial].
    destruct (loopVars inc fuel (add Q inc)) as [l'|] eqn:E; [|discriminate].
    now rewrite (IH _ _ E).
Qed.

Lemma dataLoop_vars (fuel : nat) (Q : num) :
  dataLoop P fuel Q = option_map (map (evaluate P)) (loopVars step fuel Q).
Proof.
  revert Q; induction fuel as [|fuel IH]; intros Q; simpl; [reflexivity|].
  destruct (le Q (add Qmax eps)); [|reflexivity].
  rewrite IH. now destruct (loopVars step fuel (add Q step)).
Qed.

Lemma scanLoop_vars (fuel : nat) (rs : list num) (prevQ prevTP Q : num) :
  scanLoop P fuel rs prevQ prevTP Q =
  option_map (fun vs => scanOver P rs prevQ prevTP (map (toFixedNumber 4) vs))
             (loopVars scanStep fuel Q).
Proof.
  revert rs prevQ prevTP Q; induction fuel as [|fuel IH];
    intros rs prevQ prevTP Q; simpl; [reflexivity|].
  destruct (le Q (add Qmax eps)); [|reflexivity].
  rewrite IH. now destruct (loopVars scanStep fuel (add Q scanStep)).
Qed.

Lemma scanOver_pairs (rs : list num) (prevQ : num) (qs : list num) :
  scanOver P rs prevQ (tpAt P prevQ) qs =
  rs ++ flat_map (pushedAt P) (pairs prevQ qs).
Proof.
  revert rs prevQ; induction qs as [|q qs IH]; intros rs prevQ; simpl.
  - now rewrite app_nil_r.
  - rewrite IH, <- app_assoc. reflexivity.
Qed.

(** The roots are what the scan pushes at the adjacent pairs of its
    grid, in order. *)
Lemma roots_pairs :
  roots P = option_map (fun g => flat_map (pushedAt P) (pairs zero g)) scanGrid.
Proof.
  unfold roots, scanGrid. rewrite scanLoop_vars.
  destruct (loopVars scanStep scanFuel scanStep) as [vs|]; simpl; [|reflexivity].
  now rewrite scanOver_pairs.
Qed.

Lemma data_vars :
  data P = option_map (map (evaluate P)) (loopVars step dataFuel zero).
Proof. apply dataLoop_vars. Qed.

Lemma evaluate_Q (qs : list num) :
  map Sample.Q (map (evaluate P) qs) = map (toFixedNumber 3) qs.
Proof. rewrite map_map. reflexivity. Qed.

End LoopFacts.

(** ** Order laws of the two instances *)

Ltac compare_cases :=
  repeat match goal with
    | H : context [Pos.compare_cont Eq ?a ?b] |- _ =>
        rewrite (Pos.compare_cont_spec a b Eq) in H
    | |- context [Pos.compare_cont Eq ?a ?b] =>
        rewrite (Pos.compare_cont_spec a b Eq)
    | H : context [(?a ?= ?b)%Z] |- _ => destruct (Z.compare_spec a b)
    | |- context [(?a ?= ?b)%Z] => destruct (Z.compare_spec a b)
    | H : context [(?a ?= ?b)%positive] |- _ => destruct (Pos.compare_spec a b)
    | |- context [(?a ?= ?b)%positive] => destruct (Pos.compare_spec a b)
    end;
  simpl in *; try discriminate; try reflexivity; try lia.

Ltac float_cases x :=
  destruct x as [[|]|[|]| |[|] ? ?].

#[export] Instance F64_order : OrderLaws F64.
Proof.
  split; unfold lt, le; simpl; unfold SFltb, SFleb, SFcompare.
  - intros x; float_cases x; compare_cases.
  - intros x y z; float_cases x; float_cases y; try discriminate;
      float_cases z; try discriminate; try reflexivity; compare_cases.
  - intros x y z; float_cases x; float_cases y; try discriminate;
      float_cases z; try discriminate; try reflexivity; compare_cases.
  - intros x y; float_cases x; float_cases y; try discriminate;
      try reflexivity; compare_cases.
  - intros x y; float_cases x; float_cases y; try discriminate;
      try reflexivity; compare_cases.
  - intros x y; float_cases x; float_cases y; try discriminate;
      try reflexivity; compare_cases.
  - intros x y; float_cases x; float_cases y; try discriminate;
      try reflexivity; compare_cases.
  - reflexivity.
Qed.

Lemma exact_lt_iff (q r : Q) :
  Rational.lt (Rational.XFin q) (Rational.XFin r) = true <-> (q < r)%Q.
Proof.
  simpl. rewrite Qlt_alt. destruct (q ?= r)%Q; split; congruence.
Qed.

Lemma exact_le_iff (q r : Q) :
  Rational.le (Rational.XFin q) (Rational.XFin r) = true <-> (q <= r)%Q.
Proof.
  simpl. rewrite Qle_alt. destruct (q ?= r)%Q; split; congruence.
Qed.

Lemma exact_seq_iff (q r : Q) :
  Rational.strictEq (Rational.XFin q) (Rational.XFin r) = true <-> (q == r)%Q.
Proof. simpl. apply Qeq_bool_iff. Qed.

Lemma exact_lt_false_iff (q r : Q) :
  Rational.lt (Rational.XFin q) (Rational.XFin r) = false <-> (r <= q)%Q.
Proof.
  rewrite <- Bool.not_true_iff_false, exact_lt_iff. split.
  - apply Qnot_lt_le.
  - intros H1 H2. apply (Qlt_irrefl q). eapply Qlt_le_trans; eauto.
Qed.

Lemma exact_le_false_iff (q r : Q) :
  Rational.le (Rational.XFin q) (Rational.XFin r) = false <-> (r < q)%Q.
Proof.
  rewrite <- Bool.not_true_iff_false, exact_le_iff. split.
  - apply Qnot_le_lt.
  - intros H1 H2. apply (Qlt_irrefl q). eapply Qle_lt_trans; eauto.
Qed.

Ltac exact_cases x := destruct x as [|[|]|?].

#[export] Instance Exact_order : OrderLaws Exact.
Proof.
  split; unfold lt, le; simpl.
  - intros x; exact_cases x; try reflexivity.
    apply exact_lt_false_iff, Qle_refl.
  - intros x y z; exact_cases x; exact_cases y; try discriminate;
      exact_cases z; try discriminate; try reflexivity.
    rewrite !exact_lt_iff. apply Qlt_trans.
  - intros x y z; exact_cases x; exact_cases y; try discriminate;
      exact_cases z; try discriminate; try reflexivity.
    rewrite !exact_lt_iff, exact_le_iff. apply Qlt_le_trans.
  - intros x y; exact_cases x; exact_cases y; try discriminate;
      try reflexivity.
    rewrite exact_lt_iff, exact_le_iff. apply Qlt_le_weak.
  - intros x y; exact_cases x; exact_cases y; try discriminate;
      try reflexivity.
    rewrite exact_lt_iff, exact_le_false_iff. trivial.
  - intros x y; exact_cases x; exact_cases y; try discriminate;
      try reflexivity.
    + intros _. apply exact_le_iff, Qle_refl.
    + intros _. apply exact_le_iff, Qle_refl.
  - intros x y; exact_cases x; exact_cases y; try discriminate;
      try reflexivity.
    intros _ _. rewrite exact_lt_false_iff, exact_le_iff. trivial.
  - reflexivity.
Qed.

(** ** The scan for the maximum *)

Section MaxScan.
Context {N : Number} {L : OrderLaws N}.

Lemma maxStep_fold (s : list (Sample.t num)) (m q : num) :
  (fold_left maxStep s (m, q) = (m, q) /\
   forall row, In row s -> lt m (Sample.TP row) = false)
  \/ (exists pre row post,
        s = pre ++ row :: post /\
        fold_left maxStep s (m, q) = (Sample.TP row, Sample.Q row) /\
        lt m (Sample.TP row) = true /\
        (forall e, In e pre -> le (Sample.TP row) (Sample.TP e) = false) /\
        (forall e, In e post -> lt (Sample.TP row) (Sample.TP e) = false)).
Proof.
  revert m q; induction s as [|row s IH]; intros m q; simpl.
  - left. split; [reflexivity|]. intros ? [].
  - replace (maxStep (m, q) row)
      with (if lt m (Sample.TP row) then (Sample.TP row, Sample.Q row) else (m, q))
      by reflexivity.
    destruct (lt m (Sample.TP row)) eqn:Hlt.
    + right.
      destruct (IH (Sample.TP row) (Sample.Q row))
        as [[Hr Hall]|(pre & row' & post & Hs & Hr & Hlt' & Hpre & Hpost)].
      * exists [], row, s. rewrite Hr.
        split; [reflexivity|]. split; [reflexivity|]. split; [assumption|].
        split; [intros ? []|assumption].
      * exists (row :: pre), row', post. subst s.
        split; [reflexivity|]. split; [assumption|].
        split; [eapply lt_trans; eauto|]. split; [|assumption].
        intros e [<-|He]; [|auto]. now apply lt_not_le.
    + destruct (IH m q)
        as [[Hr Hall]|(pre & row' & post & Hs & Hr & Hlt' & Hpre & Hpost)].
      * left. split; [assumption|]. intros e [<-|He]; auto.
      * right. exists (row :: pre), row', post. subst s.
        split; [reflexivity|]. split; [assumption|].
        split; [assumption|]. split; [|assumption].
        intros e [He|He]; [subst e|auto].
        destruct (le (Sample.TP row') (Sample.TP row)) eqn:Hle; [|reflexivity].
        rewrite (lt_le_trans _ _ _ Hlt' Hle) in Hlt. discriminate.
Qed.

(** No row of the series has a [TP] above the reported maximum. *)
Lemma maxScan_upper (s : list (Sample.t num)) (row : Sample.t num) :
  In row s -> lt (fst (maxScan s)) (Sample.TP row) = false.
Proof.
  intros Hin. unfold maxScan.
  destruct (maxStep_fold s negInfinity zero)
    as [[Hr Hall]|(pre & row' & post & Hs & Hr & Hlt' & Hpre & Hpost)];
    rewrite Hr; simpl; [auto|].
  subst s. apply in_app_or in Hin. destruct Hin as [Hin|[<-|Hin]].
  - destruct (lt (Sample.TP row') (Sample.TP row)) eqn:E; [|reflexivity].
    apply lt_le_incl in E. rewrite (Hpre _ Hin) in E. discriminate.
  - apply lt_irrefl.
  - auto.
Qed.

(** Every row whose [TP] is a number (not NaN) has a [TP] at most the
    reported maximum. *)
Lemma maxScan_ge (s : list (Sample.t num)) (row : Sample.t num) :
  In row s -> le (Sample.TP row) (Sample.TP row) = true ->
  le (Sample.TP row) (fst (maxScan s)) = true.
Proof.
  intros Hin Hrow. apply le_total; [|assumption|now apply maxScan_upper].
  unfold maxScan.
  destruct (maxStep_fold s negInfinity zero)
    as [[Hr _]|(pre & top & post & _ & Hr & Hlt & _)]; rewrite Hr; cbn [fst].
  - apply negInfinity_le_refl.
  - exact (lt_le_refl _ _ Hlt).
Qed.

(** The reported [Qstar] is the initial 0 or the [Q] of a row. *)
Lemma maxScan_Qstar (s : list (Sample.t num)) :
  snd (maxScan s) = zero \/ In (snd (maxScan s)) (map Sample.Q s).
Proof.
  unfold maxScan.
  destruct (maxStep_fold s negInfinity zero)
    as [[Hr _]|(pre & top & post & Hs & Hr & _)]; rewrite Hr; cbn [snd].
  - now left.
  - right. apply in_map. rewrite Hs. apply in_elt.
Qed.

End MaxScan.

(** ** The two grids, computed: they do not depend on the parameters *)

Lemma F64_data_grid :
  option_map (map (toFixedNumber 3)) (@loopVars F64 step dataFuel zero)
  = Some (map (tick 1) (List.seq 0 101)).
Proof. vm_compute. reflexivity. Qed.

Lemma F64_scan_grid :
  @scanGrid F64 = Some (map (tick 2) (List.seq 1 1000)).
Proof. vm_compute. reflexivity. Qed.

Lemma Exact_data_grid :
  option_map (map (toFixedNumber 3)) (@loopVars Exact step dataFuel zero)
  = Some (map (tick 1) (List.seq 0 101)).
Proof. vm_compute. reflexivity. Qed.

Lemma Exact_scan_grid :
  @scanGrid Exact = Some (map (tick 2) (List.seq 1 1000)).
Proof. vm_compute. reflexivity. Qed.


Lemma Exact_scan_vars :
  @loopVars Exact scanStep scanFuel scanStep = Some (map (tick 2) (List.seq 1 1000)).
Proof. vm_compute. reflexivity. Qed.

Section GridConsequences.
Context {N : Number}.
Variable P : Parameters.t num.

Lemma data_of_grid (g : list num) :
  option_map (map (toFixedNumber 3)) (loopVars step dataFuel zero) = Some g ->
  exists s, data P = Some s /\ map Sample.Q s = g.
Proof.
  intros H. rewrite data_vars.
  destruct (loopVars step dataFuel zero) as [vs|]; [|discriminate].
  simpl in *. injection H as <-.
  eexists. split; [reflexivity|]. apply evaluate_Q.
Qed.

Lemma roots_of_grid (g : list num) :
  scanGrid = Some g ->
  roots P = Some (flat_map (pushedAt P) (pairs zero g)).
Proof. intros H. now rewrite roots_pairs, H. Qed.

End GridConsequences.

(** More fuel changes nothing: the loop of [data] stops by its own
    condition after 101 turns, the scan after 1000. *)
Section Fuel.
Context {N : Number}.
Variable P : Parameters.t num.

Lemma dataLoop_more_fuel (fuel extra : nat) (l : list num) :
  loopVars step fuel zero = Some l ->
  dataLoop P (fuel + extra) zero = dataLoop P fuel zero.
Proof.
  intros E. now rewrite !dataLoop_vars, (loopVars_more_fuel _ _ extra _ E), E.
Qed.

Lemma scanLoop_more_fuel (fuel extra : nat) (l : list num) :
  loopVars scanStep fuel scanStep = Some l ->
  scanLoop P (fuel + extra) [] zero (tpAt P zero) scanStep
  = scanLoop P fuel [] zero (tpAt P zero) scanStep.
Proof.
  intros E. now rewrite !scanLoop_vars, (loopVars_more_fuel _ _ extra _ E), E.
Qed.

End Fuel.

Lemma F64_data_fuel (P : Parameters.t (@num F64)) (fuel : nat) :
  (102 <= fuel)%nat -> dataLoop P fuel zero = dataLoop P 102 zero.
Proof.
  intros H. replace fuel with (102 + (fuel - 102))%nat by lia.
  eapply dataLoop_more_fuel. vm_compute. reflexivity.
Qed.

Lemma F64_scan_fuel (P : Parameters.t (@num F64)) (fuel : nat) :
  (1001 <= fuel)%nat ->
  scanLoop P fuel [] zero (tpAt P zero) scanStep
  = scanLoop P 1001 [] zero (tpAt P zero) scanStep.
Proof.
  intros H. replace fuel with (1001 + (fuel - 1001))%nat by lia.
  eapply scanLoop_more_fuel. vm_compute. reflexivity.
Qed.

Lemma Exact_data_fuel (P : Parameters.t (@num Exact)) (fuel : nat) :
  (102 <= fuel)%nat -> dataLoop P fuel zero = dataLoop P 102 zero.
Proof.
  intros H. replace fuel with (102 + (fuel - 102))%nat by lia.
  eapply dataLoop_more_fuel. vm_compute. reflexivity.
Qed.

Lemma Exact_scan_fuel (P : Parameters.t (@num Exact)) (fuel : nat) :
  (1001 <= fuel)%nat ->
  scanLoop P fuel [] zero (tpAt P zero) scanStep
  = scanLoop P 1001 [] zero (tpAt P zero) scanStep.
Proof.
  intros H. replace fuel with (1001 + (fuel - 1001))%nat by lia.
  eapply scanLoop_more_fuel. vm_compute. reflexivity.
Qed.

Lemma increasing_nth {N : Number} (l : list num) :
  increasing l = true ->
  forall (i : nat) (x y : num),
    nth_error l i = Some x -> nth_error l (S i) = Some y -> lt x y = true.
Proof.
  induction l as [|a l IH]; intros H i x y Hx Hy.
  - destruct i; discriminate.
  - destruct l as [|b l]; [destruct i; simpl in Hy; [discriminate|destruct i; discriminate]|].
    simpl in H. apply andb_prop in H. destruct H as [Hab Hl].
    destruct i as [|i]; simpl in Hx, Hy.
    + injection Hx as <-. injection Hy as <-. exact Hab.
    + exact (IH Hl i x y Hx Hy).
Qed.

(** ** The markers read off the unique roots *)

Section MarkersOfRoots.
Context {N : Number}.

Lemma breakEvenOf_hd (u : list num) : breakEvenOf u = hd_error u.
Proof. now destruct u. Qed.

Lemma profitLimitOf_spec (u : list num) (x : num) :
  profitLimitOf u = Some x <->
  exists r0 rest, u = r0 :: x :: rest /\ le one (sub x r0) = true.
Proof.
  split.
  - destruct u as [|r0 [|r1 rest]]; simpl; try discriminate.
    destruct (le one (sub r1 r0)) eqn:E; [|discriminate].
    intros H; injection H as <-. now exists r0, rest.
  - intros (r0 & rest & -> & H). simpl. now rewrite H.
Qed.

Lemma markers_fields (P : Parameters.t num) (series : list (Sample.t num))
  (u : list num) :
  uniqueRoots P = Some u ->
  markers P series =
  Some (Markers.mk (snd (maxScan series)) (fst (maxScan series))
          (breakEvenOf u) (profitLimitOf u)).
Proof.
  intros H. unfold markers. rewrite H. now destruct (maxScan series).
Qed.

End MarkersOfRoots.

Lemma F64_uniqueRoots_total (P : Parameters.t (@num F64)) :
  exists u, uniqueRoots P = Some u.
Proof.
  unfold uniqueRoots. rewrite (roots_of_grid P F64_scan_grid).
  eexists. reflexivity.
Qed.


(** In binary64, for every parameters, [Qstar] on the series of [data]
    is a finite quantity of [[0, Qmax]]. *)
Lemma F64_Qstar_in_domain (P : Parameters.t (@num F64)) :
  exists (s : list (Sample.t (@num F64))) (m : Markers.t (@num F64)),
    data P = Some s /\ markers P s = Some m /\
    isFinite (Markers.Qstar m) = true /\
    le zero (Markers.Qstar m) = true /\ le (Markers.Qstar m) Qmax = true.
Proof.
  destruct (data_of_grid P F64_data_grid) as (s & Hs & HQ).
  destruct (F64_uniqueRoots_total P) as [u Hu].
  exists s. eexists. split; [exact Hs|].
  split; [apply (markers_fields P s Hu)|]. cbn [Markers.Qstar].
  assert (Hdom : forallb (fun q : @num F64 => isFinite q && le zero q && le q Qmax)
                   (zero :: map (tick 1) (List.seq 0 101)) = true)
    by (vm_compute; reflexivity).
  rewrite forallb_forall in Hdom.
  assert (Hin : In (snd (maxScan s)) (zero :: map (tick 1) (List.seq 0 101))).
  { destruct (maxScan_Qstar s) as [E|E]; [left; now rewrite E|right; now rewrite <- HQ]. }
  specialize (Hdom _ Hin). rewrite !andb_true_iff in Hdom. tauto.
Qed.

(** ** Sorting and filtering keep only recorded roots *)

Section SortFacts.
Context {N : Number}.

Lemma In_insert (x y : num) (l : list num) :
  In x (insert y l) <-> x = y \/ In x l.
Proof.
  induction l as [|z l IH]; simpl.
  - intuition.
  - destruct (lt (sub z y) zero); simpl; rewrite ?IH; intuition.
Qed.

Lemma In_sort (x : num) (l : list num) : In x (sort l) <-> In x l.
Proof.
  unfold sort. induction l as [|y l IH]; simpl; [reflexivity|].
  rewrite In_insert, IH. intuition.
Qed.







End SortFacts.

(** ** Exact arithmetic: finite numbers stay finite *)

Section ExactArith.
Local Open Scope Q_scope.

Lemma fin_intro (q : Q) : fin (Rational.XFin q) q.
Proof. exists q. split; reflexivity. Qed.

Lemma fin_eq (x : @num Exact) (u v : Q) : fin x u -> u == v -> fin x v.
Proof. intros (q & -> & Hq) H. exists q. split; [reflexivity|]. now rewrite Hq. Qed.

Lemma fin_dec (m : Z) (d : nat) : fin (dec m d) (m # Rational.pow10 d).
Proof.
  exists (Qred (m # Rational.pow10 d)). split; [reflexivity|]. apply Qred_correct.
Qed.

Lemma fin_zero : fin zero 0.
Proof. eexists. split; [reflexivity|]. reflexivity. Qed.


Lemma fin_two : fin two 2.
Proof. eexists. split; [reflexivity|]. reflexivity. Qed.


Lemma fin_add (x y : @num Exact) (u v : Q) :
  fin x u -> fin y v -> fin (add x y) (u + v).
Proof.
  intros (q & -> & Hq) (r & -> & Hr). exists (Qred (q + r)).
  split; [reflexivity|]. now rewrite Qred_correct, Hq, Hr.
Qed.

Lemma fin_sub (x y : @num Exact) (u v : Q) :
  fin x u -> fin y v -> fin (sub x y) (u - v).
Proof.
  intros (q & -> & Hq) (r & -> & Hr). exists (Qred (q - r)).
  split; [reflexivity|]. now rewrite Qred_correct, Hq, Hr.
Qed.

Lemma fin_mul (x y : @num Exact) (u v : Q) :
  fin x u -> fin y v -> fin (mul x y) (u * v).
Proof.
  intros (q & -> & Hq) (r & -> & Hr). exists (Qred (q * r)).
  split; [reflexivity|]. now rewrite Qred_correct, Hq, Hr.
Qed.

Lemma isZero_iff (q : Q) : Rational.isZero q = true <-> q == 0.
Proof.
  unfold Rational.isZero, Qeq. simpl. rewrite Z.eqb_eq. lia.
Qed.

Lemma fin_div (x y : @num Exact) (u v : Q) :
  fin x u -> fin y v -> ~ v == 0 -> fin (div x y) (u / v).
Proof.
  intros (q & -> & Hq) (r & -> & Hr) Hv.
  unfold div. cbn. destruct (Rational.isZero r) eqn:E.
  - apply isZero_iff in E. rewrite Hr in E. contradiction.
  - exists (Qred (q / r)). split; [reflexivity|].
    now rewrite Qred_correct, Hq, Hr.
Qed.


Lemma fin_isFinite (x : @num Exact) (u : Q) : fin x u -> isFinite x = true.
Proof. now intros (q & -> & Hq). Qed.

Lemma fin_lt (x y : @num Exact) (u v : Q) :
  fin x u -> fin y v -> (lt x y = true <-> u < v).
Proof.
  intros (q & -> & Hq) (r & -> & Hr).
  change (lt (Rational.XFin q : @num Exact) (Rational.XFin r))
    with (Rational.lt (Rational.XFin q) (Rational.XFin r)).
  now rewrite exact_lt_iff, Hq, Hr.
Qed.

Lemma fin_le (x y : @num Exact) (u v : Q) :
  fin x u -> fin y v -> (le x y = true <-> u <= v).
Proof.
  intros (q & -> & Hq) (r & -> & Hr).
  change (le (Rational.XFin q : @num Exact) (Rational.XFin r))
    with (Rational.le (Rational.XFin q) (Rational.XFin r)).
  now rewrite exact_le_iff, Hq, Hr.
Qed.

Lemma fin_strictEq (x y : @num Exact) (u v : Q) :
  fin x u -> fin y v -> (strictEq x y = true <-> u == v).
Proof.
  intros (q & -> & Hq) (r & -> & Hr).
  change (strictEq (Rational.XFin q : @num Exact) (Rational.XFin r))
    with (Rational.strictEq (Rational.XFin q) (Rational.XFin r)).
  now rewrite exact_seq_iff, Hq, Hr.
Qed.

Lemma fin_lt_false (x y : @num Exact) (u v : Q) :
  fin x u -> fin y v -> (lt x y = false <-> v <= u).
Proof.
  intros Hx Hy. rewrite <- Bool.not_true_iff_false, (fin_lt Hx Hy). split.
  - apply Qnot_lt_le.
  - intros H1 H2. apply (Qlt_irrefl u). eapply Qlt_le_trans; eauto.
Qed.

Lemma fin_le_false (x y : @num Exact) (u v : Q) :
  fin x u -> fin y v -> (le x y = false <-> v < u).
Proof.
  intros Hx Hy. rewrite <- Bool.not_true_iff_false, (fin_le Hx Hy). split.
  - apply Qnot_le_lt.
  - intros H1 H2. apply (Qlt_irrefl u). eapply Qle_lt_trans; eauto.
Qed.


Variables FC a b c p : Q.

Lemma fin_tpAt (x : @num Exact) (q : Q) :
  fin x q -> fin (tpAt (realParameters FC a b c p) x) (tpQ FC a b c p q).
Proof.
  intros Hx. unfold tpAt, tpQ, realParameters.
  cbn [Parameters.FC Parameters.a Parameters.b Parameters.c Parameters.p].
  repeat first [apply fin_sub | apply fin_add | apply fin_mul
               | apply fin_intro | exact Hx].
Qed.

End ExactArith.

(** ** Exact arithmetic: the bisection *)

Section ExactBisect.
Local Open Scope Q_scope.
Variables FC a b c p : Q.

Lemma sign_carries (A M H : Q) : 0 < A * M -> A * H <= 0 -> M * H <= 0.
Proof. intros H1 H2. nra. Qed.

Lemma pow2_succ (k : nat) :
  inject_Z (2 ^ Z.of_nat (S k)) == 2 * inject_Z (2 ^ Z.of_nat k).
Proof.
  rewrite Nat2Z.inj_succ, Z.pow_succ_r by lia. now rewrite inject_Z_mult.
Qed.

Lemma Exact_bisect (k : nat) :
  forall (pt lo hi : @num Exact) (t l h : Q),
    fin pt t -> fin lo l -> fin hi h ->
    t == tpQ FC a b c p l -> l <= h ->
    tpQ FC a b c p l * tpQ FC a b c p h <= 0 ->
    exists l' h' : Q,
      fin (fst (bisect (realParameters FC a b c p) k pt lo hi)) l' /\
      fin (snd (bisect (realParameters FC a b c p) k pt lo hi)) h' /\
      l <= l' /\ l' <= h' /\ h' <= h /\
      (h' - l') * inject_Z (2 ^ Z.of_nat k) == h - l /\
      tpQ FC a b c p l' * tpQ FC a b c p h' <= 0.
Proof.
  induction k as [|k IH]; intros pt lo hi t l h Hpt Hlo Hhi Ht Hlh Hsign.
  - exists l, h. cbn [bisect fst snd]. repeat split; auto; try lra.
    change (inject_Z (2 ^ Z.of_nat 0)) with 1. lra.
  - cbn [bisect].
    set (mid := div (add lo hi) two).
    assert (Hmid : fin mid ((l + h) * (1 # 2))).
    { apply fin_eq with (u := (l + h) / 2); [|field].
      apply fin_div; [apply fin_add; assumption|apply fin_two|]. lra. }
    pose proof (fin_tpAt FC a b c p Hmid) as HmidTP.
    set (midTP := tpAt (realParameters FC a b c p) mid) in *.
    pose proof (fin_mul Hpt HmidTP) as Hprod.
    destruct (le (mul pt midTP) zero) eqn:E.
    + apply (fin_le Hprod fin_zero) in E.
      destruct (IH pt lo mid t l ((l + h) * (1 # 2)) Hpt Hlo Hmid Ht)
        as (l' & h' & Hl' & Hh' & H1 & H2 & H3 & H4 & H5).
      * lra.
      * now rewrite <- Ht.
      * exists l', h'. repeat split; auto; try lra.
        rewrite pow2_succ. lra.
    + apply (fin_le_false Hprod fin_zero) in E.
      destruct (IH midTP mid hi (tpQ FC a b c p ((l + h) * (1 # 2))) ((l + h) * (1 # 2)) h
                  HmidTP Hmid Hhi)
        as (l' & h' & Hl' & Hh' & H1 & H2 & H3 & H4 & H5).
      * reflexivity.
      * lra.
      * apply sign_carries with (A := tpQ FC a b c p l); [|assumption].
        now rewrite <- Ht.
      * exists l', h'. repeat split; auto; try lra.
        rewrite pow2_succ. lra.
Qed.

End ExactBisect.

(** ** Total profit on the reals has a zero where its sign changes *)

Section RealRoot.
Variables FC a b c p : Q.






End RealRoot.

(** ** Exact arithmetic: the grid of the scan *)

Lemma Exact_pairs_ok :
  forallb exactPairOk (@pairs Exact zero (map (tick 2) (List.seq 1 1000))) = true.
Proof. vm_compute. reflexivity. Qed.

Lemma Exact_pair (pq cq : @num Exact) :
  In (pq, cq) (@pairs Exact zero (map (tick 2) (List.seq 1 1000))) ->
  exists l h : Q,
    pq = Rational.XFin l /\ cq = Rational.XFin h /\
    (0 <= l)%Q /\ (l <= h)%Q /\ (h <= 10)%Q /\ (h - l == 1 # 100)%Q.
Proof.
  intros H. pose proof Exact_pairs_ok as Hall.
  rewrite forallb_forall in Hall. specialize (Hall _ H).
  unfold exactPairOk in Hall.
  destruct pq as [| |l]; try discriminate. destruct cq as [| |h]; try discriminate.
  rewrite !andb_true_iff in Hall. destruct Hall as [[[H1 H2] H3] H4].
  apply Qle_bool_iff in H1, H2, H3. apply Qeq_bool_iff in H4.
  exists l, h. repeat split; assumption.
Qed.

Lemma Some_inj (A : Type) (x y : A) : Some x = Some y -> x = y.
Proof. intros H. now injection H. Qed.

(** ** Exact arithmetic: what the scan records *)

Section ExactScan.
Local Open Scope Q_scope.
Variables FC a b c p : Q.

Lemma Exact_refine (pq cq : @num Exact) (l h : Q) :
  fin pq l -> fin cq h -> l <= h ->
  tpQ FC a b c p l * tpQ FC a b c p h <= 0 ->
  exists (lo hi : @num Exact) (l' h' : Q),
    bisect (realParameters FC a b c p) 30
           (tpAt (realParameters FC a b c p) pq) pq cq = (lo, hi) /\
    refine (realParameters FC a b c p)
           pq (tpAt (realParameters FC a b c p) pq) cq = div (add lo hi) two /\
    fin lo l' /\ fin hi h' /\
    fin (div (add lo hi) two) ((l' + h') * (1 # 2)) /\
    l <= l' /\ l' <= h' /\ h' <= h /\
    (h' - l') * inject_Z (2 ^ 30) == h - l /\
    tpQ FC a b c p l' * tpQ FC a b c p h' <= 0.
Proof.
  intros Hpq Hcq Hlh Hsign.
  destruct (@Exact_bisect FC a b c p 30 _ _ _ _ _ _
              (fin_tpAt FC a b c p Hpq) Hpq Hcq (Qeq_refl _) Hlh Hsign)
    as (l' & h' & Hl' & Hh' & H1 & H2 & H3 & H4 & H5).
  unfold refine.
  destruct (bisect (realParameters FC a b c p) 30
              (tpAt (realParameters FC a b c p) pq) pq cq) as [lo hi].
  cbn [fst snd] in Hl', Hh'.
  exists lo, hi, l', h'. split; [reflexivity|]. split; [reflexivity|].
  split; [assumption|]. split; [assumption|]. split.
  - apply fin_eq with (u := (l' + h') / 2); [|field].
    apply fin_div; [apply fin_add; assumption|apply fin_two|]. lra.
  - repeat split; assumption.
Qed.

(** Whatever a turn of the scan pushes lies between [prevQ] and [currQ]. *)
Lemma Exact_pushedAt (pq cq : @num Exact) (l h : Q) (x : @num Exact) :
  fin pq l -> fin cq h -> l <= h ->
  In x (pushedAt (realParameters FC a b c p) (pq, cq)) ->
  exists v : Q, fin x v /\ l <= v /\ v <= h.
Proof.
  intros Hpq Hcq Hlh. unfold pushedAt, pushed. cbn [fst snd].
  pose proof (fin_tpAt FC a b c p Hpq) as Hp.
  pose proof (fin_tpAt FC a b c p Hcq) as Hc.
  rewrite (fin_isFinite Hp), (fin_isFinite Hc). cbn [negb orb].
  destruct (strictEq (tpAt (realParameters FC a b c p) pq) zero).
  { intros [<-|[]]. exists l. repeat split; [assumption|lra|assumption]. }
  destruct (strictEq (tpAt (realParameters FC a b c p) cq) zero).
  { intros [<-|[]]. exists h. repeat split; [assumption|assumption|lra]. }
  destruct (lt (mul (tpAt (realParameters FC a b c p) pq)
                    (tpAt (realParameters FC a b c p) cq)) zero) eqn:E;
    [|intros []].
  apply (fin_lt (fin_mul Hp Hc) fin_zero) in E.
  destruct (Exact_refine Hpq Hcq Hlh (Qlt_le_weak _ _ E))
    as (lo & hi & l' & h' & _ & Hr & _ & _ & Hm & H1 & H2 & H3 & _).
  rewrite Hr. intros [<-|[]].
  exists ((l' + h') * (1 # 2)). repeat split; [assumption|lra|lra].
Qed.

(** Every recorded root is a quantity of the sampling domain. *)
Lemma Exact_roots_in_domain (rs : list (@num Exact)) (x : @num Exact) :
  roots (realParameters FC a b c p) = Some rs -> In x rs ->
  exists v : Q, fin x v /\ 0 <= v /\ v <= 10.
Proof.
  rewrite (roots_of_grid _ Exact_scan_grid). intros H Hx.
  apply Some_inj in H. rewrite <- H in Hx. clear H.
  apply in_flat_map in Hx. destruct Hx as ([pq cq] & Hin & Hx).
  destruct (Exact_pair Hin) as (l & h & -> & -> & H0 & H1 & H2 & _).
  destruct (Exact_pushedAt x (fin_intro l) (fin_intro h) H1 Hx)
    as (v & Hv & Hlv & Hvh).
  exists v. repeat split; [assumption|lra|lra].
Qed.

End ExactScan.

(** ** Exact arithmetic: the series and its maximum *)

Section ExactSeries.
Local Open Scope Q_scope.
Variables FC a b c p : Q.





End ExactSeries.

(** ** With no fixed cost the quantity 0 is recorded as a root *)

Lemma fin_tick (d k : nat) :
  fin (tick d k) (Z.of_nat k # Rational.pow10 d).
Proof. apply fin_dec. Qed.

Lemma insert_least {N : Number} (x : num) (l : list num) :
  (forall y, In y l -> lt (sub y x) zero = false) -> insert x l = x :: l.
Proof.
  destruct l as [|y l]; cbn [insert]; [reflexivity|].
  intros H. now rewrite (H y (or_introl eq_refl)).
Qed.

Section ZeroFixedCost.
Local Open Scope Q_scope.
Variables a b c p : Q.

Lemma Exact_first_turn_pushes_zero :
  pushedAt (realParameters 0 a b c p) (zero, tick 2 1) = [zero].
Proof.
  unfold pushedAt, pushed. cbn [fst snd].
  pose proof (fin_tpAt 0 a b c p fin_zero) as H0.
  pose proof (fin_tpAt 0 a b c p (fin_tick 2 1)) as H1.
  rewrite (fin_isFinite H0), (fin_isFinite H1). cbn [negb orb].
  assert (E : strictEq (tpAt (realParameters 0 a b c p) zero) zero = true).
  { apply (fin_strictEq H0 fin_zero). unfold tpQ. ring. }
  now rewrite E.
Qed.

(** In exact arithmetic, whatever a, b, c and p are: with FC = 0 the
    reported [breakEven] is 0. *)
Lemma Exact_breakEven_zero_when_FC_zero (series : list (Sample.t (@num Exact))) :
  exists m : Markers.t (@num Exact),
    markers (realParameters 0 a b c p) series = Some m /\
    Markers.breakEven m = Some zero.
Proof.
  pose proof (roots_of_grid (realParameters 0 a b c p) Exact_scan_grid) as Hrs.
  assert (Hdom : forall y,
             In y (flat_map (pushedAt (realParameters 0 a b c p))
                     (pairs zero (map (tick 2) (List.seq 1 1000)))) ->
             lt (sub y zero) zero = false).
  { intros y Hy. destruct (@Exact_roots_in_domain 0 a b c p _ y Hrs Hy)
      as (v & Hv & H0 & _).
    apply (fin_lt_false (fin_sub Hv fin_zero) fin_zero). lra. }
  change (pairs zero (map (tick 2) (List.seq 1 1000)))
    with ((zero, tick 2 1)
            :: @pairs Exact (tick 2 1) (map (tick 2) (List.seq 2 999)))
    in Hrs, Hdom.
  cbn [flat_map] in Hrs, Hdom. rewrite Exact_first_turn_pushes_zero in Hrs, Hdom.
  cbn [app] in Hrs, Hdom.
  set (rest := flat_map (pushedAt (realParameters 0 a b c p))
                 (pairs (tick 2 1) (map (tick 2) (List.seq 2 999)))) in *.
  assert (Hu : uniqueRoots (realParameters 0 a b c p)
               = Some (zero :: filterFrom zero (sort rest))).
  { unfold uniqueRoots. rewrite Hrs. cbn [option_map]. f_equal.
    unfold sort at 1. cbn [fold_right]. fold (sort rest).
    rewrite insert_least; [reflexivity|].
    intros y Hy. apply Hdom. right. now apply In_sort. }
  eexists. split; [apply (markers_fields _ series Hu)|]. reflexivity.
Qed.

End ZeroFixedCost.

(** The same grid in exact arithmetic, where the [k]-th value is
    [k * step] itself. *)
Lemma Exact_sampling_grid (P : Parameters.t (@num Exact)) :
  exists s : list (Sample.t (@num Exact)),
    data P = Some s /\
    map Sample.Q s = map (tick 1) (List.seq 0 101) /\
    map Sample.Q s = map (fun k => mul (tick 0 k) step) (List.seq 0 101) /\
    (forall (i : nat) (x y : num),
        nth_error (map Sample.Q s) i = Some x ->
        nth_error (map Sample.Q s) (S i) = Some y ->
        lt x y = true) /\
    hd_error (map Sample.Q s) = Some zero /\
    last (map Sample.Q s) NaN = Qmax.
Proof.
  destruct (data_of_grid P Exact_data_grid) as [s [Hs HQ]].
  exists s. rewrite HQ. split; [exact Hs|]. split; [reflexivity|].
  split; [vm_compute; reflexivity|].
  split; [apply increasing_nth; vm_compute; reflexivity|].
  repeat split; vm_compute; reflexivity.
Qed.

(** ** The reference parameters in binary64 *)

(** At the reference parameters the binary64 run has every property of
    the markers that the exact model has for all parameters. *)
Lemma F64_reference_markers_in_domain :
  exists (s : list (Sample.t (@num F64))) (m : Markers.t (@num F64))
         (x y : @num F64),
    data referenceParameters = Some s /\
    markers referenceParameters s = Some m /\
    isFinite (Markers.Qstar m) = true /\
    isFinite (Markers.maxTP m) = true /\
    le zero (Markers.Qstar m) = true /\ le (Markers.Qstar m) Qmax = true /\
    Markers.breakEven m = Some x /\ Markers.profitLimit m = Some y /\
    le zero x = true /\ le x Qmax = true /\
    le zero y = true /\ le y Qmax = true /\
    lt x y = true.
Proof.
  eexists. eexists. eexists. eexists.
  split; [vm_compute; reflexivity|].
  split; [vm_compute; reflexivity|].
  repeat split; vm_compute; reflexivity.
Qed.

(** At the reference parameters the binary64 scan changes sign between
    2.59 and 2.6 and records there the midpoint of the bracket left by
    the 30 halvings, a quantity between 2.59 and 2.6. *)
Lemma F64_reference_bisection :
  exists lo hi : @num F64,
    lt (mul (tpAt referenceParameters (tick 2 259 : @num F64))
            (tpAt referenceParameters (tick 2 260))) zero = true /\
    bisect referenceParameters 30
      (tpAt referenceParameters (tick 2 259)) (tick 2 259) (tick 2 260)
    = (lo, hi) /\
    pushedAt referenceParameters (tick 2 259, tick 2 260)
    = [div (add lo hi) two] /\
    le (tick 2 259) (div (add lo hi) two) = true /\
    le (div (add lo hi) two) (tick 2 260) = true /\
    le (abs (tpAt referenceParameters (div (add lo hi) two))) (dec 1 9) = true.
Proof.
  eexists. eexists.
  split; [vm_compute; reflexivity|].
  split; [vm_compute; reflexivity|].
  repeat split; vm_compute; reflexivity.
Qed.

(** * The claims *)

(** C1 says that a reported [breakEven] is strictly positive and that
    with FC=0 the quantity 0 is not recorded as a root.  The code does
    otherwise: at FC=0 (a=5, b=1, c=0.1, p=5), in the binary64
    arithmetic of the source, [TP(0)] is zero, the first turn of the
    scan pushes [prevQ = 0], the roots are 0 and 10, and [markers]
    reports [breakEven = 0]. *)
Theorem C1_breakEven_zero_when_FC_zero :
  exists (s : list (Sample.t (@num F64))) (m : Markers.t (@num F64)),
    data zeroFixedCost = Some s /\
    markers zeroFixedCost s = Some m /\
    strictEq (tpAt zeroFixedCost (zero : @num F64)) zero = true /\
    roots zeroFixedCost = Some [zero; Qmax] /\
    Markers.breakEven m = Some zero /\
    Markers.profitLimit m = Some Qmax.
Proof.
  eexists. eexists.
  split; [vm_compute; reflexivity|].
  split; [vm_compute; reflexivity|].
  repeat split; vm_compute; reflexivity.
Qed.

(** C2. With [Qmax = 10] and [step = 0.1], for every parameters, [data]
    returns a series of 101 points whose [Q] values are the decimals
    0, 0.1, 0.2, ..., 10 (the [k]-th is [k * step] rounded to three
    decimals), strictly increasing, the first exactly 0 and the last
    exactly [Qmax], hence within [step] of it.  Stated for the binary64
    arithmetic of the source. *)
Theorem C2_sampling_grid (P : Parameters.t (@num F64)) :
  exists s : list (Sample.t (@num F64)),
    data P = Some s /\
    map Sample.Q s = map (tick 1) (List.seq 0 101) /\
    map Sample.Q s
    = map (fun k => toFixedNumber 3 (mul (tick 0 k) step)) (List.seq 0 101) /\
    (forall (i : nat) (x y : num),
        nth_error (map Sample.Q s) i = Some x ->
        nth_error (map Sample.Q s) (S i) = Some y ->
        lt x y = true) /\
    hd_error (map Sample.Q s) = Some zero /\
    last (map Sample.Q s) NaN = Qmax /\
    le (last (map Sample.Q s) NaN) Qmax = true /\
    le (sub Qmax (last (map Sample.Q s) NaN)) step = true.
Proof.
  destruct (data_of_grid P F64_data_grid) as [s [Hs HQ]].
  exists s. rewrite HQ. split; [exact Hs|]. split; [reflexivity|].
  split; [vm_compute; reflexivity|].
  split; [apply increasing_nth; vm_compute; reflexivity|].
  repeat split; vm_compute; reflexivity.
Qed.

(** C3. For every parameters (and series), [markers] returns, and with
    [u] the deduplicated root list: [breakEven] is the first entry of
    [u], if any; [profitLimit] is [x] exactly when [u] starts with two
    entries [r0], [x] and [x - r0 >= 1], whatever follows them; with no
    root found both markers are [null]. *)
Theorem C3_profitLimit_gate (P : Parameters.t (@num F64))
  (series : list (Sample.t (@num F64))) :
  exists (m : Markers.t (@num F64)) (u : list (@num F64)),
    markers P series = Some m /\
    uniqueRoots P = Some u /\
    Markers.breakEven m = hd_error u /\
    (forall x : @num F64,
        Markers.profitLimit m = Some x <->
        exists r0 rest, u = r0 :: x :: rest /\ le one (sub x r0) = true) /\
    (forall r0 r1 rest,
        u = r0 :: r1 :: rest -> le one (sub r1 r0) = false ->
        Markers.profitLimit m = None) /\
    (u = [] -> Markers.breakEven m = None /\ Markers.profitLimit m = None) /\
    (roots P = Some [] ->
     Markers.breakEven m = None /\ Markers.profitLimit m = None).
Proof.
  destruct (F64_uniqueRoots_total P) as [u Hu].
  eexists. exists u. split; [apply (markers_fields P series Hu)|].
  cbn [Markers.breakEven Markers.profitLimit].
  split; [exact Hu|]. split; [apply breakEvenOf_hd|].
  split; [intros x; apply profitLimitOf_spec|]. split; [|split].
  - intros r0 r1 rest -> H. cbn [profitLimitOf]. now rewrite H.
  - intros ->. split; reflexivity.
  - intros Hr. unfold uniqueRoots in Hu. rewrite Hr in Hu.
    apply Some_inj in Hu. subst u. split; reflexivity.
Qed.

(** C4. For every series (and parameters), [markers] returns, and its
    [maxTP] and [Qstar] are those of one left-to-right scan that
    replaces the kept sample only by a strictly greater [TP]: no row
    has a [TP] above [maxTP], and every [TP] that is a number (not NaN)
    is at most [maxTP]; when some row has a [TP] above
    [-Infinity], [maxTP] and [Qstar] are the [TP] and [Q] of a row
    [top] such that no earlier row reaches [TP top] (so [top] is the
    first to attain the maximum) and no later row exceeds it (a later
    equal or lower [TP] does not replace it); when no row has a [TP]
    above [-Infinity] (an empty series, say) the initial values
    [-Infinity] and [0] are reported. *)
Theorem C4_maximum_scan (P : Parameters.t (@num F64))
  (series : list (Sample.t (@num F64))) :
  exists m : Markers.t (@num F64),
    markers P series = Some m /\
    (Markers.maxTP m, Markers.Qstar m) = maxScan series /\
    (forall row, In row series -> lt (Markers.maxTP m) (Sample.TP row) = false) /\
    (forall row,
        In row series -> le (Sample.TP row) (Sample.TP row) = true ->
        le (Sample.TP row) (Markers.maxTP m) = true) /\
    (forall row,
        In row series -> lt negInfinity (Sample.TP row) = true ->
        exists pre top post,
          series = pre ++ top :: post /\
          Markers.maxTP m = Sample.TP top /\
          Markers.Qstar m = Sample.Q top /\
          (forall e, In e pre -> le (Sample.TP top) (Sample.TP e) = false) /\
          (forall e, In e post -> lt (Sample.TP top) (Sample.TP e) = false)) /\
    ((forall row, In row series -> lt negInfinity (Sample.TP row) = false) ->
     Markers.maxTP m = negInfinity /\ Markers.Qstar m = zero).
Proof.
  destruct (F64_uniqueRoots_total P) as [u Hu].
  eexists. split; [apply (markers_fields P series Hu)|].
  cbn [Markers.maxTP Markers.Qstar].
  split; [now destruct (maxScan series)|].
  split; [intros row; apply maxScan_upper|].
  split; [intros row; apply maxScan_ge|].
  unfold maxScan.
  destruct (maxStep_fold series negInfinity zero)
    as [[Hr Hall]|(pre & top & post & Hs & Hr & Hlt & Hpre & Hpost)];
    rewrite Hr; cbn [fst snd]; split.
  - intros row Hin Hrow. rewrite (Hall row Hin) in Hrow. discriminate.
  - intros _. split; reflexivity.
  - intros _ _ _. exists pre, top, post. repeat split; assumption.
  - intros Hnone. rewrite Hnone in Hlt; [discriminate|].
    subst series. apply in_elt.
Qed.

(** C5. For the reference parameters FC=5, a=5, b=1, c=0.1, p=5, in the
    binary64 arithmetic of the source: [markers] reports the finite
    [Qstar = 6.7], where [TP] (and the reported [maxTP]) is strictly
    above [TP] at [Qstar - 0.5] and at [Qstar + 0.5], and a break-even
    quantity at which [TP] is within 0.01 of zero. *)
Theorem C5_reference_markers :
  exists (s : list (Sample.t (@num F64))) (m : Markers.t (@num F64))
         (Qbe : @num F64),
    data referenceParameters = Some s /\
    markers referenceParameters s = Some m /\
    isFinite (Markers.Qstar m) = true /\
    Markers.Qstar m = tick 1 67 /\
    lt (tpAt referenceParameters (sub (Markers.Qstar m) (dec 5 1)))
       (tpAt referenceParameters (Markers.Qstar m)) = true /\
    lt (tpAt referenceParameters (add (Markers.Qstar m) (dec 5 1)))
       (tpAt referenceParameters (Markers.Qstar m)) = true /\
    lt (tpAt referenceParameters (sub (Markers.Qstar m) (dec 5 1)))
       (Markers.maxTP m) = true /\
    lt (tpAt referenceParameters (add (Markers.Qstar m) (dec 5 1)))
       (Markers.maxTP m) = true /\
    Markers.breakEven m = Some Qbe /\
    le (abs (tpAt referenceParameters Qbe)) (dec 1 2) = true.
Proof.
  eexists. eexists. eexists.
  split; [vm_compute; reflexivity|].
  split; [vm_compute; reflexivity|].
  repeat split; vm_compute; reflexivity.
Qed.



(** C7. For every parameters, [AC] and [AP] of the point at [Q = 0] are
    [NaN], a value that is not finite, and at every [Q > 0] they are
    the quotients [TC / Q] and [TP / Q] of the same point; [evaluate]
    is a total function, so nothing is signalled. *)
Theorem C7_averages (P : Parameters.t (@num F64)) :
  Sample.AC (evaluate P zero) = NaN /\
  Sample.AP (evaluate P zero) = NaN /\
  isFinite (NaN : @num F64) = false /\
  forall Q : @num F64,
    lt zero Q = true ->
    Sample.AC (evaluate P Q) = div (Sample.TC (evaluate P Q)) Q /\
    Sample.AP (evaluate P Q) = div (Sample.TP (evaluate P Q)) Q.
Proof.
  split; [reflexivity|]. split; [reflexivity|]. split; [reflexivity|].
  intros Q HQ. unfold evaluate. cbn [Sample.AC Sample.AP Sample.TC Sample.TP].
  assert (E : strictEq Q zero = false).
  { revert HQ. unfold lt, strictEq, zero. cbn.
    float_cases Q; try discriminate; reflexivity. }
  rewrite E. split; reflexivity.
Qed.



(** C9. [breakEven] and [profitLimit] are computed from the parameters
    and the fixed constants alone: two runs of [markers] with the same
    parameters and different series report the same [breakEven] and
    the same [profitLimit], in any arithmetic.  The series is read only
    by the scan for the maximum, which yields [Qstar] and [maxTP] and
    does not read the parameters. *)
Theorem C9_roots_ignore_series {N : Number} (P : Parameters.t num)
  (s1 s2 : list (Sample.t num)) (m1 m2 : Markers.t num) :
  markers P s1 = Some m1 ->
  markers P s2 = Some m2 ->
  Markers.breakEven m1 = Markers.breakEven m2 /\
  Markers.profitLimit m1 = Markers.profitLimit m2 /\
  Some (Markers.breakEven m1) = option_map (@breakEvenOf N) (uniqueRoots P) /\
  Some (Markers.profitLimit m1) = option_map (@profitLimitOf N) (uniqueRoots P) /\
  (Markers.maxTP m1, Markers.Qstar m1) = maxScan s1 /\
  (Markers.maxTP m2, Markers.Qstar m2) = maxScan s2.
Proof.
  unfold markers. intros H1 H2.
  destruct (maxScan s1) as [t1 q1], (maxScan s2) as [t2 q2].
  destruct (uniqueRoots P) as [u|]; [|discriminate].
  injection H1 as <-. injection H2 as <-. simpl.
  repeat split; reflexivity.
Qed.

Lemma C9_witness :
  exists m1 m2 : Markers.t (@num F64),
    markers referenceParameters [] = Some m1 /\
    markers referenceParameters [evaluate referenceParameters one] = Some m2 /\
    (Markers.breakEven m1 = Markers.breakEven m2 /\
     Markers.profitLimit m1 = Markers.profitLimit m2 /\
     Some (Markers.breakEven m1)
     = option_map (@breakEvenOf F64) (uniqueRoots referenceParameters) /\
     Some (Markers.profitLimit m1)
     = option_map (@profitLimitOf F64) (uniqueRoots referenceParameters) /\
     (Markers.maxTP m1, Markers.Qstar m1) = maxScan [] /\
     (Markers.maxTP m2, Markers.Qstar m2)
     = maxScan [evaluate referenceParameters one]).
Proof.
  eexists. eexists.
  split; [vm_compute; reflexivity|].
  split; [vm_compute; reflexivity|].
  apply (@C9_roots_ignore_series F64 referenceParameters []
           [evaluate referenceParameters one]); vm_compute; reflexivity.
Defined.


